(** * FlowZmith workflow whiteboard: graph store, interaction handlers, persistence

    A shallow embedding of the state and the event handlers of
    [src/WorkflowWhiteboard.jsx] (components [CustomNode], [Sidebar] and
    [Flow]), followed by the properties of the graph authoring and
    persistence engine.

    Conventions of the embedding.
    - The React state of [Flow] ([nodes], [edges], [selectedNodes]), the
      module-level [nodeIdCounter] and the browser's [localStorage] are the
      fields of one record [State]; a handler is a function on [State].
      The state updates queued by one handler are applied together
      (React batches them), so a handler is one transition.
    - Answers of the outside world are arguments of the handler: the answer
      to [confirm(...)], the clock read by [new Date()], the projection
      [screenToFlowPosition].
    - [useReactFlow()]'s [getNodes], [getEdges], [setNodes] and [setEdges]
      go through the store of the library, which keeps one node for an id
      and gives every edge the default edge options, and they reset
      [Flow]'s arrays from it. The handlers that use them ([handleEdit],
      [handleDelete], [handleDuplicate], [handleSave]) are embedded on
      [Flow]'s arrays; this is what the code does on a graph with unique
      node ids ([unique_node_ids]) whose edges carry the default options
      ([edges_styled]), and the theorems about these handlers that range
      over all graphs say so in their hypotheses.
    - [JSON.stringify] followed by [JSON.parse] is taken as the identity;
      it is so on data all of whose numbers are finite and not the negative
      zero ([json_stable]).
    - A JavaScript number that holds a coordinate is a binary64 float; the
      id counter is a natural number (exact in JavaScript below 2^53). *)

From Stdlib Require Import Floats.PrimFloat Ascii.
From stdpp Require Import base strings list gmap pretty.

Open Scope string_scope.
Open Scope list_scope.
Set Warnings "-register-all".

(** ** Data model *)

(** Plain JSON data, for the open parts of node and edge objects. *)
Inductive json : Type :=
  | JNull
  | JBool (b : bool)
  | JNum (x : float)
  | JStr (s : string)
  | JArr (items : list json)
  | JObj (fields : list (string * json)).

Record XYPosition : Type := mkXY { x : float; y : float }.

(** [node.data] *)
Record NodeData : Type := mkData {
  label : string;
  data_type : string;            (* data.type: key into the block catalog *)
  description : string;
  status : string;               (* 'idle' | 'running' | 'success' | 'error' *)
  config : list (string * json)
}.

Record Node : Type := mkNode {
  node_id : string;
  node_type : string;            (* always 'customNode' *)
  node_data : NodeData;
  position : XYPosition;
  node_rest : list (string * json)  (* further own properties, copied by spread *)
}.

Record Edge : Type := mkEdge {
  edge_id : string;
  source : string;
  target : string;
  sourceHandle : option string;  (* null when the handle has no id *)
  targetHandle : option string;
  edge_rest : list (string * json)  (* presentation properties *)
}.

(** What React Flow hands to [onConnect]. *)
Record Connection : Type := mkConnection {
  c_source : option string;
  c_sourceHandle : option string;
  c_target : option string;
  c_targetHandle : option string
}.

(** The object written by [handleSave]; a stored document may lack either
    array (the property is then [undefined]). *)
Record Workflow : Type := mkWorkflow {
  wf_nodes : option (list Node);
  wf_edges : option (list Edge);
  wf_timestamp : option string
}.

(** The drag-and-drop payload built by [Sidebar]'s [onDragStart]. *)
Record DragPayload : Type := mkPayload {
  p_type : string;
  p_label : string;
  p_nodeType : string
}.

(** A string that is read with [JSON.parse], described by what the parse
    makes of it at type [A]. [JSON.stringify] of plain data (strings,
    booleans, finite numbers other than the negative zero, arrays, objects)
    produces a text that parses back to equal data, so the text of a value
    is represented by the value.
    - [Empty]: the empty string, which is falsy;
    - [Json a]: a text that parses to [a];
    - [Garbled]: any other non-empty text: [JSON.parse], or the
      destructuring of its result, throws. *)
Inductive text (A : Type) : Type :=
  | Empty
  | Json (a : A)
  | Garbled.
Arguments Empty {A}.
Arguments Json {A} a.
Arguments Garbled {A}.

Definition JSON_stringify {A : Type} (a : A) : text A := Json a.

(** A handler that may be left by an exception. *)
Inductive outcome (A : Type) : Type :=
  | Returns (a : A)
  | Throws.
Arguments Returns {A} a.
Arguments Throws {A}.

Definition JSON_parse {A : Type} (t : text A) : outcome A :=
  match t with
  | Json a => Returns a
  | Empty | Garbled => Throws
  end.

(** Truthiness of a string value that may be [null]. *)
Definition truthy (s : option string) : bool :=
  match s with
  | None => false
  | Some s => bool_decide (s ≠ "")
  end.

Record State : Type := mkState {
  nodes : list Node;
  edges : list Edge;
  selectedNodes : list string;
  nodeIdCounter : N;
  localStorage : gmap string (text Workflow)
}.

Definition setNodes (f : list Node → list Node) (st : State) : State :=
  mkState (f (nodes st)) (edges st) (selectedNodes st) (nodeIdCounter st)
          (localStorage st).

Definition setEdges (f : list Edge → list Edge) (st : State) : State :=
  mkState (nodes st) (f (edges st)) (selectedNodes st) (nodeIdCounter st)
          (localStorage st).

Definition setSelectedNodes (sel : list string) (st : State) : State :=
  mkState (nodes st) (edges st) sel (nodeIdCounter st) (localStorage st).

Definition ids (st : State) : list string := node_id <$> nodes st.

(** ** Constants of the module *)

Definition edgeOptions : list (string * json) :=
  [ ("type", JStr "smoothstep");
    ("animated", JBool true);
    ("style", JObj [("strokeWidth", JNum 2); ("stroke", JStr "#64748b")]);
    ("markerEnd", JObj [("type", JStr "arrowclosed"); ("width", JNum 20);
                        ("height", JNum 20); ("color", JStr "#64748b")]) ].

Definition initialNodes : list Node :=
  [ mkNode "node-1" "customNode"
      (mkData "Deploy Contract" "Deploy"
              "Deploy smart contract to blockchain" "idle"
              [("network", JStr "ethereum"); ("gasLimit", JStr "3000000")])
      (mkXY 100 100) [];
    mkNode "node-2" "customNode"
      (mkData "Initialize Storage" "Constructor"
              "Set initial contract state" "idle"
              [("params", JArr [JStr "owner"; JStr "totalSupply"])])
      (mkXY 400 100) [] ].

(** [let nodeIdCounter = 3; const getNodeId = () => `node-${nodeIdCounter++}`].
    The counter is a natural number here; the binary64 number of the code
    counts like it up to 2^53 ([maxCounter]), far beyond what a session
    that starts at 3 reaches. *)
Definition getNodeId (st : State) : string * State :=
  ("node-" +:+ pretty (nodeIdCounter st),
   mkState (nodes st) (edges st) (selectedNodes st)
           (nodeIdCounter st + 1)%N (localStorage st)).

(** Evaluation of the module and first render of [Flow] in a browser whose
    storage holds [ls]: [useState(initialNodes)], [useState([])],
    [useState([])], [let nodeIdCounter = 3]. *)
Definition newSession (ls : gmap string (text Workflow)) : State :=
  mkState initialNodes [] [] 3%N ls.

Definition initialState : State := newSession ∅.

(** ** Handlers of [Flow] *)

Record DropEvent : Type := mkDrop {
  dataTransfer : gmap string (text DragPayload);
  clientX : float;
  clientY : float
}.

(** [event.dataTransfer.getData(format)]: the empty string when nothing was
    set for the format. *)
Definition getData (ev : DropEvent) (format : string) : text DragPayload :=
  default Empty (dataTransfer ev !! format).

Definition onDrop (screenToFlowPosition : XYPosition → XYPosition)
    (event : DropEvent) (st : State) : outcome State :=
  match getData event "application/reactflow" with
  | Empty => Returns st                                  (* if (!data) return; *)
  | data =>
    match JSON_parse data with
    | Throws => Throws
    | Returns payload =>
      let position := screenToFlowPosition (mkXY (clientX event) (clientY event)) in
      let (newId, st1) := getNodeId st in
      let newNode :=
        mkNode newId "customNode"
          (mkData (p_label payload) (p_nodeType payload)
                  (p_nodeType payload +:+ " node") "idle" [])
          position [] in
      Returns (setNodes (λ nds, nds ++ [newNode]) st1)
    end
  end.

(** [useOnSelectionChange({ onChange: ({ nodes }) => ... })] *)
Definition onSelectionChange (selected : list Node) (st : State) : State :=
  setSelectedNodes (node_id <$> selected) st.

(** The effect on [deleteKey] and [selectedNodes]; [deleteKey] is true while
    Delete or Backspace is held. *)
Definition deleteKeyEffect (deleteKey : bool) (st : State) : State :=
  let selectedNodes := selectedNodes st in
  if deleteKey && bool_decide (0 < length selectedNodes) then
    setSelectedNodes []
      (setEdges (filter (λ edge, (source edge ∉ selectedNodes) ∧
                                 (target edge ∉ selectedNodes)))
        (setNodes (filter (λ node, (node_id node ∉ selectedNodes))) st))
  else st.

(** *** [addEdge] of the reactflow library (version 11), which [onConnect]
    calls; it is not part of the repository and is transcribed here from
    the library. *)

(** The first argument of [addEdge]: a connection with, possibly, an id and
    further properties. *)
Record EdgeParams : Type := mkParams {
  ep_id : option string;
  ep_source : option string;
  ep_target : option string;
  ep_sourceHandle : option string;
  ep_targetHandle : option string;
  ep_rest : list (string * json)
}.

Definition getEdgeId (source target : string) (sourceHandle targetHandle : option string)
  : string :=
  "reactflow__edge-" +:+ source +:+ default "" sourceHandle +:+ "-" +:+
  target +:+ default "" targetHandle.

(** [a === b || (!a && !b)] on handle ids *)
Definition sameHandle (a b : option string) : Prop :=
  a = b ∨ (truthy a = false ∧ truthy b = false).

Definition connectionExists (edge : Edge) (edges : list Edge) : Prop :=
  Exists (λ el, source el = source edge ∧ target el = target edge ∧
                sameHandle (sourceHandle el) (sourceHandle edge) ∧
                sameHandle (targetHandle el) (targetHandle edge)) edges.

Global Instance sameHandle_dec a b : Decision (sameHandle a b).
Proof. unfold sameHandle. apply _. Defined.

Global Instance connectionExists_dec edge edges :
  Decision (connectionExists edge edges).
Proof. unfold connectionExists. apply _. Defined.

Definition addEdge (edgeParams : EdgeParams) (edges : list Edge) : list Edge :=
  match ep_source edgeParams, ep_target edgeParams with
  | Some source, Some target =>
    if negb (truthy (Some source)) || negb (truthy (Some target)) then edges
    else
      let edge :=
        mkEdge (default (getEdgeId source target (ep_sourceHandle edgeParams)
                                   (ep_targetHandle edgeParams))
                        (ep_id edgeParams))
               source target
               (ep_sourceHandle edgeParams) (ep_targetHandle edgeParams)
               (ep_rest edgeParams) in
      if decide (connectionExists edge edges) then edges
      else edges ++ [edge]
  | _, _ => edges                       (* a null endpoint is falsy *)
  end.

(** String conversion inside a template literal. *)
Definition str (s : option string) : string := default "null" s.

Definition edgeIdOf (source target : option string) : string :=
  "edge-" +:+ str source +:+ "-" +:+ str target.

Definition onConnect (connection : Connection) (st : State) : State :=
  let edge :=
    mkParams (Some (edgeIdOf (c_source connection) (c_target connection)))
             (c_source connection) (c_target connection)
             (c_sourceHandle connection) (c_targetHandle connection)
             edgeOptions in
  setEdges (λ eds, addEdge edge eds) st.

(** *** Workflow management *)

(** [now] is [new Date().toISOString()]. The closing [alert] has no effect
    on the state. [getNodes()] and [getEdges()] are taken to give [Flow]'s
    arrays, as they do (up to what the library keeps with a node) on a
    graph with unique node ids whose edges carry the default options. *)
Definition handleSave (now : string) (st : State) : State :=
  let workflow := mkWorkflow (Some (nodes st)) (Some (edges st)) (Some now) in
  mkState (nodes st) (edges st) (selectedNodes st) (nodeIdCounter st)
          (<["workflow" := JSON_stringify workflow]> (localStorage st)).

(** [localStorage.getItem] gives [null] for a missing key; [null] and the
    empty string are falsy. The delayed [fitView()] only moves the viewport. *)
Definition handleLoad (st : State) : outcome State :=
  match localStorage st !! "workflow" with
  | None | Some Empty => Returns st
  | Some saved =>
    match JSON_parse saved with
    | Throws => Throws
    | Returns doc =>
      Returns (setEdges (λ _, default [] (wf_edges doc))
                (setNodes (λ _, default [] (wf_nodes doc)) st))
    end
  end.

Definition handleClear (confirm : bool) (st : State) : State :=
  if confirm then setEdges (λ _, []) (setNodes (λ _, []) st) else st.

(** ** Handlers of [CustomNode], for the node with the given [id]

    Their [setNodes] and [setEdges] are those of [useReactFlow()]; they are
    embedded as updates of [Flow]'s arrays, which is what they amount to on
    a graph with unique node ids whose edges carry the default options. *)

Definition handleDelete (confirm : bool) (id : string) (st : State) : State :=
  if confirm then
    setEdges (filter (λ edge, source edge ≠ id ∧ target edge ≠ id))
      (setNodes (filter (λ node, node_id node ≠ id)) st)
  else st.

(** [getNode] of [useReactFlow()]: the library keeps the nodes in a [Map]
    keyed by id that it fills in array order, so of several nodes with one
    id the last is found. *)
Definition getNode (id : string) (st : State) : option Node :=
  last (filter (λ node, node_id node = id) (nodes st)).

Definition handleDuplicate (id : string) (st : State) : State :=
  match getNode id st with
  | Some currentNode =>
    let (newId, st1) := getNodeId st in
    let newNode :=
      mkNode newId (node_type currentNode)
        (mkData (label (node_data currentNode) +:+ " (Copy)")
                (data_type (node_data currentNode))
                (description (node_data currentNode))
                (status (node_data currentNode))
                (config (node_data currentNode)))
        (mkXY (x (position currentNode) + 50)%float
              (y (position currentNode) + 50)%float)
        (node_rest currentNode) in
    setNodes (λ nodes, nodes ++ [newNode]) st1
  | None => st
  end.

(** ** Well-formedness of a graph *)

(** Invariant 1 on nodes. *)
Definition unique_node_ids (st : State) : Prop := NoDup (ids st).

(** Invariant 2: no dangling edge. *)
Definition edges_closed (st : State) : Prop :=
  Forall (λ edge, (source edge ∈ ids st) ∧ (target edge ∈ ids st)) (edges st).

(** Every node id is a non-empty string. *)
Definition ids_nonempty (st : State) : Prop :=
  Forall (λ id, id ≠ "") (ids st).

(** The edges are those [onConnect] makes: the id is derived from the
    endpoints, the handles carry no id, and there is one edge at most for an
    ordered pair of endpoints. *)
Definition canonical (edge : Edge) : Prop :=
  edge_id edge = edgeIdOf (Some (source edge)) (Some (target edge)) ∧
  truthy (sourceHandle edge) = false ∧ truthy (targetHandle edge) = false.

Definition edges_canonical (st : State) : Prop :=
  Forall canonical (edges st) ∧
  NoDup ((λ edge, (source edge, target edge)) <$> edges st).

(** The edges from [a] to [b]. *)
Definition edges_between (a b : string) (st : State) : list Edge :=
  filter (λ edge, source edge = a ∧ target edge = b) (edges st).

(** The next id of the generator is not in use. *)
Definition next_id_free (st : State) : Prop :=
  fst (getNodeId st) ∉ ids st.

(** ** Sequencing handlers that may throw *)

Global Instance outcome_ret : MRet outcome := λ A a, Returns a.
Global Instance outcome_bind : MBind outcome := λ A B f o,
  match o with
  | Returns a => f a
  | Throws => Throws
  end.
Global Instance outcome_fmap : FMap outcome := λ A B f o,
  match o with
  | Returns a => Returns (f a)
  | Throws => Throws
  end.

(** ** Sample sessions *)

(** [Sidebar]'s [onDragStart]: what dragging the palette block [nodeType]
    puts into the transfer. *)
Definition onDragStart (nodeType : string) : gmap string (text DragPayload) :=
  {[ "application/reactflow" :=
       JSON_stringify (mkPayload "customNode" ("New " +:+ nodeType) nodeType) ]}.

(** A viewport that is neither panned nor zoomed. *)
Definition unitViewport (p : XYPosition) : XYPosition := p.

(** The edge [onConnect] makes from [a] to [b] between handles without id. *)
Definition wire (a b : string) : Connection :=
  mkConnection (Some a) None (Some b) None.

Definition madeEdge (a b : string) : Edge :=
  mkEdge (edgeIdOf (Some a) (Some b)) a b None None edgeOptions.

(** The two initial nodes, wired. *)
Definition wiredState : State := onConnect (wire "node-1" "node-2") initialState.

(** A first visit: one block is dropped on the canvas and the workflow is
    saved. *)
Definition firstVisit : outcome State :=
  st ← onDrop unitViewport (mkDrop (onDragStart "Swap") 250 180) initialState;
  mret (handleSave "2025-01-01T00:00:00.000Z" st).

(** The page is opened again with the same browser storage and the saved
    workflow is loaded. *)
Definition secondVisit : outcome State :=
  st ← firstVisit;
  handleLoad (newSession (localStorage st)).

(** A stored document without its [nodes] array. *)
Definition docWithoutNodes : Workflow :=
  mkWorkflow None (Some [madeEdge "node-1" "node-2"]) None.

(** The wired graph with the first node selected on the canvas. *)
Definition selectedState : State := onSelectionChange (take 1 initialNodes) wiredState.

(** A connection whose source is not a node of the graph. *)
Definition ghostWire : Connection := wire "ghost" "node-1".

(** After the load of the second visit, another block is dropped. *)
Definition dropAfterLoad : outcome State :=
  st ← secondVisit;
  onDrop unitViewport (mkDrop (onDragStart "Stake") 300 300) st.

(** After the load of the second visit, the first node is duplicated. *)
Definition duplicateAfterLoad : outcome State :=
  handleDuplicate "node-1" <$> secondVisit.

(** Every node id reads node-k for a number k that the id generator has
    passed: the ids of the initial nodes and those handed out since the
    page was opened. *)
Definition issued (st : State) : Prop :=
  Forall (λ id, ∃ k : N, (k < nodeIdCounter st)%N ∧ id = "node-" +:+ pretty k)
         (ids st).

(** ** Editing a label *)

(** [{ ...data, label: newLabel }] *)
Definition withLabel (newLabel : string) (data : NodeData) : NodeData :=
  mkData newLabel (data_type data) (description data) (status data) (config data).

(** [handleEdit] of [CustomNode]. [answer] is what [prompt] returns ([null]
    when the dialog is cancelled) and [localData] is the component's own
    copy of the node data, which the handler compares with and updates. *)
Definition handleEdit (answer : option string) (id : string)
    (localData : NodeData) (st : State) : State * NodeData :=
  match answer with
  | Some newLabel =>
    if truthy (Some newLabel) && bool_decide (newLabel ≠ label localData) then
      (setNodes (fmap (λ node,
                   if decide (node_id node = id)
                   then mkNode (node_id node) (node_type node)
                               (withLabel newLabel (node_data node))
                               (position node) (node_rest node)
                   else node)) st,
       withLabel newLabel localData)
    else (st, localData)
  | None => (st, localData)
  end.

(** ** The palette of [Sidebar] *)

(** An entry of [nodeTypes]; the icon is named by its import. *)
Record BlockType : Type := mkBlock {
  icon : string;
  color : string;
  glow : string;
  category : string
}.

(** [Object.entries(nodeTypes)], in the order of the literal. *)
Definition nodeTypes : list (string * BlockType) :=
  [ ("Deploy", mkBlock "Zap" "from-violet-500 to-purple-600" "violet" "deployment");
    ("Constructor", mkBlock "Box" "from-blue-500 to-cyan-600" "blue" "deployment");
    ("MintToken", mkBlock "Plus" "from-emerald-500 to-green-600" "emerald" "token");
    ("BurnToken", mkBlock "Minus" "from-red-500 to-orange-600" "red" "token");
    ("Transfer", mkBlock "GitBranch" "from-indigo-500 to-blue-600" "indigo" "token");
    ("Approve", mkBlock "Check" "from-teal-500 to-cyan-600" "teal" "token");
    ("Swap", mkBlock "Activity" "from-purple-500 to-pink-600" "purple" "defi");
    ("AddLiquidity", mkBlock "Layers" "from-blue-500 to-indigo-600" "blue" "defi");
    ("Stake", mkBlock "Lock" "from-amber-500 to-yellow-600" "amber" "defi");
    ("Withdraw", mkBlock "Unlock" "from-cyan-500 to-teal-600" "cyan" "defi");
    ("Require", mkBlock "Filter" "from-rose-500 to-red-600" "rose" "logic");
    ("Modifier", mkBlock "Shield" "from-slate-500 to-gray-600" "slate" "logic");
    ("Event", mkBlock "Bell" "from-orange-500 to-amber-600" "orange" "logic");
    ("Mapping", mkBlock "Database" "from-green-500 to-emerald-600" "green" "storage");
    ("Array", mkBlock "Server" "from-indigo-500 to-purple-600" "indigo" "storage");
    ("Struct", mkBlock "Grid" "from-pink-500 to-rose-600" "pink" "storage");
    ("Oracle", mkBlock "Cloud" "from-blue-500 to-sky-600" "blue" "external");
    ("Interface", mkBlock "Code" "from-purple-500 to-indigo-600" "purple" "external");
    ("Payable", mkBlock "DollarSign" "from-green-500 to-emerald-600" "green" "external") ].

(** The values [selectedCategory] takes: the keys of [categories], which
    the filter buttons set. *)
Inductive Category : Type :=
  | all | deployment | token | defi | logic | storage | external.

Global Instance Category_eq_dec : EqDecision Category.
Proof. solve_decision. Defined.

Definition categoryKey (c : Category) : string :=
  match c with
  | all => "all" | deployment => "deployment" | token => "token"
  | defi => "defi" | logic => "logic" | storage => "storage"
  | external => "external"
  end.

(** [nodeCategories[selectedCategory]]: [undefined] for 'all'. *)
Definition nodeCategories (c : Category) : option (list string) :=
  match c with
  | all => None
  | deployment => Some ["Deploy"; "Constructor"]
  | token => Some ["MintToken"; "BurnToken"; "Transfer"; "Approve"]
  | defi => Some ["Swap"; "AddLiquidity"; "Stake"; "Withdraw"]
  | logic => Some ["Require"; "Modifier"; "Event"]
  | storage => Some ["Mapping"; "Array"; "Struct"]
  | external => Some ["Oracle"; "Interface"; "Payable"]
  end.

(** [s.includes(sub)] *)
Fixpoint includes (s sub : string) : bool :=
  String.prefix sub s ||
  match s with
  | EmptyString => false
  | String _ rest => includes rest sub
  end.

Definition matchesSearch (toLowerCase : string → string)
    (searchTerm type : string) : bool :=
  includes (toLowerCase type) (toLowerCase searchTerm).

Definition matchesCategory (selectedCategory : Category) (type : string) : bool :=
  bool_decide (selectedCategory = all) ||
  match nodeCategories selectedCategory with
  | Some types => bool_decide (type ∈ types)      (* ?.includes(type) *)
  | None => false
  end.

(** [filteredNodes]; [toLowerCase] is the string method of the runtime. *)
Definition filteredNodes (toLowerCase : string → string)
    (searchTerm : string) (selectedCategory : Category)
  : list (string * BlockType) :=
  filter (λ entry, matchesSearch toLowerCase searchTerm (fst entry) &&
                   matchesCategory selectedCategory (fst entry))
         nodeTypes.

(** [toLowerCase] on a string of ASCII characters. *)
Definition lowerAscii (c : Ascii.ascii) : Ascii.ascii :=
  let n := Ascii.nat_of_ascii c in
  if (65 <=? n)%nat && (n <=? 90)%nat then Ascii.ascii_of_nat (n + 32) else c.

Fixpoint toLowerCaseAscii (s : string) : string :=
  match s with
  | EmptyString => EmptyString
  | String c rest => String (lowerAscii c) (toLowerCaseAscii rest)
  end.

(** ** Sessions without a load *)

(** One handler of this file runs. A connection is made by the canvas
    between the handles of two nodes that are on it; the handles carry no
    id. [handleLoad] is left out. *)
Inductive step : State → State → Prop :=
  | step_drop proj event st st' :
      onDrop proj event st = Returns st' → step st st'
  | step_connect a b st :
      a ∈ ids st → b ∈ ids st → step st (onConnect (wire a b) st)
  | step_delete confirm n st : step st (handleDelete confirm n st)
  | step_deleteKey deleteKey st : step st (deleteKeyEffect deleteKey st)
  | step_duplicate n st : step st (handleDuplicate n st)
  | step_edit answer n localData st :
      step st (fst (handleEdit answer n localData st))
  | step_clear confirm st : step st (handleClear confirm st)
  | step_save now st : step st (handleSave now st)
  | step_select selected st : step st (onSelectionChange selected st).

(** The states a session can reach when the page was opened with the
    storage [ls]. *)
Definition reachable (ls : gmap string (text Workflow)) (st : State) : Prop :=
  rtc step (newSession ls) st.

Definition session_ok (st : State) : Prop :=
  unique_node_ids st ∧ issued st ∧ edges_closed st ∧ edges_canonical st.

(** Nodes and edges are kept when the ids they carry satisfy [keep]. *)
Definition keepWhere (keep : string → Prop) `{!∀ i, Decision (keep i)}
    (st : State) : State :=
  setEdges (filter (λ edge, keep (source edge) ∧ keep (target edge)))
    (setNodes (filter (λ node, keep (node_id node))) st).


(** A string without the character '-'. *)
Fixpoint dashless (s : string) : Prop :=
  match s with
  | EmptyString => True
  | String c rest => c ≠ "-"%char ∧ dashless rest
  end.

(** A session in which a block was dropped after the workflow was saved. *)
Definition savedThenDropped : outcome State :=
  st ← firstVisit;
  onDrop unitViewport (mkDrop (onDragStart "Stake") 300 300) st.

(** ** Sessions with loads *)

Inductive step_or_load : State → State → Prop :=
  | by_handler st st' : step st st' → step_or_load st st'
  | by_load st st' : handleLoad st = Returns st' → step_or_load st st'.

(** The state a load of [doc] makes of [st]. *)
Definition loaded (doc : Workflow) (st : State) : State :=
  mkState (default [] (wf_nodes doc)) (default [] (wf_edges doc))
          (selectedNodes st) (nodeIdCounter st) (localStorage st).

(** The stored document, if there is one, holds a graph that is well
    formed and whose ids the generator of this session has passed. *)
Definition stored_ok (st : State) : Prop :=
  ∀ doc, localStorage st !! "workflow" = Some (Json doc) →
         session_ok (loaded doc st).

(** A visit that drops a block, saves, clears the canvas and loads. *)
Definition saveClearLoadVisit : outcome State :=
  st ← firstVisit;
  handleLoad (handleClear true st).

(** ** Where the embedding of the library calls is exact *)



(** A number that [JSON.stringify] writes and [JSON.parse] reads back as
    itself: finite, and not the negative zero. *)
Definition json_number (x : float) : bool :=
  is_finite x && negb (is_zero x && get_sign x).

Fixpoint json_exact (j : json) : bool :=
  match j with
  | JNull | JBool _ | JStr _ => true
  | JNum x => json_number x
  | JArr items => forallb json_exact items
  | JObj fields => forallb (λ field, json_exact (snd field)) fields
  end.

Definition node_exact (node : Node) : bool :=
  json_number (x (position node)) && json_number (y (position node)) &&
  forallb (λ field, json_exact (snd field)) (config (node_data node)) &&
  forallb (λ field, json_exact (snd field)) (node_rest node).

Definition edge_exact (edge : Edge) : bool :=
  forallb (λ field, json_exact (snd field)) (edge_rest edge).

Definition json_stable (st : State) : Prop :=
  Forall (λ node, node_exact node) (nodes st) ∧
  Forall (λ edge, edge_exact edge) (edges st).

(** The fields of the persisted document shape. *)
Definition nodeFields (node : Node)
  : string * string * XYPosition * NodeData :=
  (node_id node, node_type node, position node, node_data node).

Definition edgeFields (edge : Edge) : string * string * string :=
  (edge_id edge, source edge, target edge).


(** ** Properties *)

(** *** Lists filtered by a JavaScript predicate *)

Section filter_facts.
Context {A : Type} (P : A → Prop) `{!∀ a, Decision (P a)}.

Lemma filter_all (l : list A) : Forall P l → filter P l = l.
Proof.
  induction 1 as [|a l Ha _ IH]; [reflexivity|].
  rewrite filter_cons_True by assumption. by rewrite IH.
Qed.

Lemma filter_none (l : list A) : Forall (λ a, ¬ P a) l → filter P l = [].
Proof.
  induction 1 as [|a l Ha _ IH]; [reflexivity|].
  by rewrite filter_cons_False.
Qed.

End filter_facts.

(** With one element at most for each key, the elements that share the key
    of a member are that member alone. *)
Lemma filter_key_unique {A K : Type} `{EqDecision K} (key : A → K)
    (l : list A) (a : A) :
  NoDup (key <$> l) → a ∈ l → filter (λ b, key b = key a) l = [a].
Proof.
  induction l as [|b l IH]; intros Hnd Ha.
  - by apply elem_of_nil in Ha.
  - rewrite fmap_cons in Hnd. apply NoDup_cons in Hnd as [Hb Hnd].
    apply elem_of_cons in Ha as [-> | Ha].
    + rewrite filter_cons_True by reflexivity. f_equal.
      apply filter_none, Forall_forall. intros c Hc Heq.
      apply Hb. rewrite <- Heq. by apply list_elem_of_fmap_2.
    + rewrite filter_cons_False; [by apply IH|].
      intros Heq. apply Hb. rewrite Heq. by apply list_elem_of_fmap_2.
Qed.

Lemma State_eq (st : State) :
  mkState (nodes st) (edges st) (selectedNodes st) (nodeIdCounter st)
          (localStorage st) = st.
Proof. by destruct st. Qed.

(** *** Deleting nodes *)



(** A declined confirmation leaves everything in place. *)
Lemma handleDelete_declined (st : State) (n : string) :
  handleDelete false n st = st.
Proof. reflexivity. Qed.

(** C7. When Delete or Backspace is pressed with a non-empty selection, the
    effect removes, in one transition, the selected nodes and the edges with
    a selected source or target, keeps all other nodes and edges in order,
    and empties the selection; a graph without dangling edges stays so. *)
Theorem deleteKeyEffect_batch (st : State) :
  selectedNodes st ≠ [] →
  let st' := deleteKeyEffect true st in
  (∀ node, node ∈ nodes st' ↔
           node ∈ nodes st ∧ (node_id node ∉ selectedNodes st)) ∧
  (∀ edge, edge ∈ edges st' ↔
           edge ∈ edges st ∧ (source edge ∉ selectedNodes st) ∧
           (target edge ∉ selectedNodes st)) ∧
  nodes st' `sublist_of` nodes st ∧
  edges st' `sublist_of` edges st ∧
  selectedNodes st' = [] ∧
  (edges_closed st → edges_closed st').
Proof.
  intros Hsel st'. subst st'. unfold deleteKeyEffect.
  rewrite bool_decide_true by (destruct (selectedNodes st); [done | cbn; lia]).
  cbn. split_and!.
  - intros node. rewrite list_elem_of_filter. tauto.
  - intros edge. rewrite list_elem_of_filter. tauto.
  - apply sublist_filter.
  - apply sublist_filter.
  - reflexivity.
  - unfold edges_closed, ids. cbn. rewrite !Forall_forall.
    intros Hclosed edge [[Hs Ht] Hin]%list_elem_of_filter.
    destruct (Hclosed edge Hin) as
      [(ns & Hns & Hins)%list_elem_of_fmap (nt & Hnt & Hint)%list_elem_of_fmap].
    split; apply list_elem_of_fmap.
    + exists ns. split; [done|]. apply list_elem_of_filter. by rewrite <- Hns.
    + exists nt. split; [done|]. apply list_elem_of_filter. by rewrite <- Hnt.
Qed.

Lemma deleteKeyEffect_batch_witness :
  selectedNodes selectedState = ["node-1"] ∧
  selectedNodes (deleteKeyEffect true selectedState) = [] ∧
  edges_closed (deleteKeyEffect true selectedState).
Proof.
  assert (selectedNodes selectedState ≠ []) as Hsel by discriminate.
  destruct (deleteKeyEffect_batch selectedState Hsel)
    as (_ & _ & _ & _ & Hcleared & Hclosed).
  split; [reflexivity|]. split; [exact Hcleared|].
  apply Hclosed. compute_done.
Defined.

(** Without the key, or with nothing selected, the effect does nothing. *)
Lemma deleteKeyEffect_idle (deleteKey : bool) (st : State) :
  deleteKey = false ∨ selectedNodes st = [] → deleteKeyEffect deleteKey st = st.
Proof.
  unfold deleteKeyEffect. intros [-> | ->]; [done|].
  by rewrite andb_false_r.
Qed.

(** *** Connecting two nodes *)

Lemma addEdge_made (a b : string) (eds : list Edge) :
  a ≠ "" → b ≠ "" →
  addEdge (mkParams (Some (edgeIdOf (Some a) (Some b))) (Some a) (Some b)
                    None None edgeOptions) eds
  = if decide (connectionExists (madeEdge a b) eds) then eds
    else eds ++ [madeEdge a b].
Proof.
  intros Ha Hb. unfold addEdge. cbn.
  by rewrite !bool_decide_true.
Qed.

Lemma onConnect_wire (a b : string) (st : State) :
  a ≠ "" → b ≠ "" →
  onConnect (wire a b) st
  = if decide (connectionExists (madeEdge a b) (edges st)) then st
    else setEdges (λ eds, eds ++ [madeEdge a b]) st.
Proof.
  intros Ha Hb. unfold onConnect, setEdges, wire.
  cbn [c_source c_target c_sourceHandle c_targetHandle].
  rewrite addEdge_made by assumption.
  destruct (decide _); [apply State_eq | reflexivity].
Qed.

Lemma connectionExists_self (edge : Edge) (eds : list Edge) :
  connectionExists edge (eds ++ [edge]).
Proof.
  apply Exists_app. right. apply Exists_cons_hd.
  repeat split; by left.
Qed.

(** Among canonical edges, a connection between handles without id exists
    exactly when some edge joins the same endpoints. *)
Lemma connectionExists_canonical (a b : string) (eds : list Edge) :
  Forall canonical eds →
  connectionExists (madeEdge a b) eds ↔
  ∃ el, el ∈ eds ∧ source el = a ∧ target el = b.
Proof.
  intros Hcan. unfold connectionExists. rewrite Exists_exists. split.
  - intros (el & Hin & Hs & Ht & _). by exists el.
  - intros (el & Hin & Hs & Ht). exists el. split; [done|].
    rewrite Forall_forall in Hcan. destruct (Hcan el Hin) as (_ & Hsh & Hth).
    repeat split; [done | done | by right | by right].
Qed.

(** C2. On a graph with nodes [a] and [b] whose node ids are non-empty and
    whose edges are those [onConnect] makes, connecting [a] to [b] twice
    leaves exactly one edge from [a] to [b], with the id "edge-a-b" derived
    from the endpoints; the second call changes nothing. *)
Theorem onConnect_twice (st : State) (a b : string) :
  a ∈ ids st → b ∈ ids st → ids_nonempty st → edges_canonical st →
  let st1 := onConnect (wire a b) st in
  let st2 := onConnect (wire a b) st1 in
  st2 = st1 ∧
  ∃ edge, edges_between a b st2 = [edge] ∧
          edge_id edge = "edge-" +:+ a +:+ "-" +:+ b.
Proof.
  intros Ha Hb Hne [Hcan Hnd] st1 st2.
  unfold ids_nonempty in Hne. rewrite Forall_forall in Hne.
  assert (a ≠ "") as Ha' by by apply Hne.
  assert (b ≠ "") as Hb' by by apply Hne.
  subst st2 st1. rewrite (onConnect_wire a b st) by assumption.
  destruct (decide (connectionExists (madeEdge a b) (edges st))) as [Hex | Hno].
  - rewrite onConnect_wire by assumption.
    rewrite decide_True by assumption. split; [reflexivity|].
    apply connectionExists_canonical in Hex as (el & Hin & Hs & Ht); [|done].
    exists el. split.
    + unfold edges_between.
      rewrite <- (filter_key_unique (λ e, (source e, target e)) (edges st) el)
        by assumption.
      apply list_filter_iff. intros e. rewrite Hs, Ht. split.
      * by intros [-> ->].
      * by intros [= -> ->].
    + rewrite Forall_forall in Hcan. destruct (Hcan el Hin) as (Hid & _).
      by rewrite Hid, Hs, Ht.
  - rewrite onConnect_wire by assumption. cbn [edges setEdges].
    rewrite decide_True by apply connectionExists_self.
    split; [reflexivity|].
    exists (madeEdge a b). split; [|reflexivity].
    unfold edges_between, setEdges. cbn [edges]. rewrite filter_app.
    rewrite (filter_none _ (edges st)).
    + by rewrite filter_cons_True.
    + apply Forall_forall. intros el Hin [Hs Ht]. apply Hno.
      apply connectionExists_canonical; [done|]. by exists el.
Qed.

Lemma onConnect_twice_witness :
  let st2 := onConnect (wire "node-1" "node-2")
               (onConnect (wire "node-1" "node-2") initialState) in
  st2 = wiredState ∧
  ∃ edge, edges_between "node-1" "node-2" st2 = [edge] ∧
          edge_id edge = "edge-node-1-node-2".
Proof.
  apply (onConnect_twice initialState "node-1" "node-2").
  - compute_done.
  - compute_done.
  - compute_done.
  - split; [constructor | constructor].
Defined.

(** [onConnect] keeps graphs of this shape in this shape. *)
Lemma onConnect_canonical (st : State) (a b : string) :
  a ≠ "" → b ≠ "" →
  edges_canonical st → edges_canonical (onConnect (wire a b) st).
Proof.
  intros Ha Hb [Hcan Hnd]. rewrite onConnect_wire by assumption.
  destruct (decide _) as [Hex | Hno]; [done|].
  split; cbn.
  - apply Forall_app. split; [done|]. by apply Forall_singleton.
  - rewrite fmap_app. apply NoDup_app. split; [done|]. split.
    + intros [s t] (el & [= -> ->] & Hin)%list_elem_of_fmap Hnew.
      apply list_elem_of_singleton in Hnew as [= Hs Ht].
      apply Hno, connectionExists_canonical; [done|]. by exists el.
    + apply NoDup_singleton.
Qed.

(** Removing edges keeps the remaining ones in this shape; so the two
    delete handlers preserve it. *)
Lemma edges_canonical_filter (P : Edge → Prop) `{!∀ e, Decision (P e)}
    (st : State) :
  edges_canonical st → edges_canonical (setEdges (filter P) st).
Proof.
  intros [Hcan Hnd]. split; cbn.
  - apply Forall_forall. intros e [_ Hin]%list_elem_of_filter.
    rewrite Forall_forall in Hcan. by apply Hcan.
  - eapply sublist_NoDup; [exact Hnd|].
    apply fmap_sublist, sublist_filter.
Qed.

Lemma handleDelete_canonical (confirm : bool) (n : string) (st : State) :
  edges_canonical st → edges_canonical (handleDelete confirm n st).
Proof.
  intros Hcan. destruct confirm; [|done]. unfold handleDelete.
  apply edges_canonical_filter. by destruct Hcan.
Qed.

(** C4 as stated fails: a connection from an id that no node carries adds
    an edge. *)
Lemma onConnect_absent_endpoint_adds_edge :
  ("ghost" ∉ ids initialState) ∧
  edges initialState = [] ∧
  edges (onConnect ghostWire initialState) = [madeEdge "ghost" "node-1"] ∧
  edge_id (madeEdge "ghost" "node-1") = "edge-ghost-node-1".
Proof. split; [compute_done|]. by vm_compute. Qed.

(** C4, amended. [onConnect] never looks at the nodes. It adds nothing when
    the source or the target of the connection is null or the empty string.
    For any other connection, whether or not its endpoints are nodes of the
    graph: if the graph has an edge with this source and this target
    between the same handles nothing changes, and otherwise exactly the
    edge "edge-<source>-<target>" with the default options is appended; in
    both cases an edge with this source and this target is in the graph
    afterwards. Nodes and earlier edges are always kept. *)
Theorem onConnect_ignores_nodes (st : State) (connection : Connection) :
  nodes (onConnect connection st) = nodes st ∧
  edges st `prefix_of` edges (onConnect connection st) ∧
  (truthy (c_source connection) = false ∨ truthy (c_target connection) = false →
   onConnect connection st = st) ∧
  (∀ a b, c_source connection = Some a → c_target connection = Some b →
          a ≠ "" → b ≠ "" →
          let edge := mkEdge ("edge-" +:+ a +:+ "-" +:+ b) a b
                             (c_sourceHandle connection)
                             (c_targetHandle connection) edgeOptions in
          let exists_already :=
            ∃ el, el ∈ edges st ∧ source el = a ∧ target el = b ∧
                  sameHandle (sourceHandle el) (c_sourceHandle connection) ∧
                  sameHandle (targetHandle el) (c_targetHandle connection) in
          (∃ made, made ∈ edges (onConnect connection st) ∧
                   source made = a ∧ target made = b) ∧
          (exists_already → onConnect connection st = st) ∧
          (¬ exists_already →
           onConnect connection st = setEdges (λ eds, eds ++ [edge]) st)).
Proof.
  destruct connection as [[a|] sh [b|] th];
    unfold onConnect, addEdge, setEdges; cbn; (split; [reflexivity|]).
  2-4: split; [done|]; split; [intros _; apply State_eq | intros; discriminate].
  destruct (decide (a = "")) as [Ea | Ha]; [|destruct (decide (b = "")) as [Eb | Hb]].
  - rewrite (bool_decide_false (a ≠ "")) by (by intros ?).
    cbn. split; [done|]. split; [intros _; apply State_eq|].
    by intros ? ? [= <-] _ ?.
  - rewrite (bool_decide_false (b ≠ "")) by (by intros ?).
    rewrite orb_true_r. split; [done|]. split; [intros _; apply State_eq|].
    by intros ? ? _ [= <-] _ ?.
  - rewrite !bool_decide_true by done. cbn.
    destruct (decide _) as [Hex | Hno].
    + split; [done|]. split; [by intros [? | ?]|].
      intros ? ? [= <-] [= <-] _ _. split_and!.
      * apply Exists_exists in Hex as (el & Hin & Hs & Ht & _). by exists el.
      * intros _. apply State_eq.
      * intros Hnone. destruct Hnone. by apply Exists_exists in Hex.
    + split; [by apply prefix_app_r|]. split; [by intros [? | ?]|].
      intros ? ? [= <-] [= <-] _ _. split_and!.
      * eexists. split.
        -- apply elem_of_app. right. by apply list_elem_of_singleton.
        -- done.
      * intros Hsome. destruct Hno. by apply Exists_exists.
      * intros _. reflexivity.
Qed.

Lemma onConnect_ignores_nodes_witness :
  onConnect (mkConnection None None (Some "node-1") None) initialState
  = initialState ∧
  (∃ edge, edge ∈ edges (onConnect ghostWire initialState) ∧
           source edge = "ghost" ∧ target edge = "node-1") ∧
  onConnect ghostWire initialState
  = setEdges (λ eds, eds ++ [madeEdge "ghost" "node-1"]) initialState ∧
  onConnect (wire "node-1" "node-2") wiredState = wiredState.
Proof.
  destruct (onConnect_ignores_nodes initialState
              (mkConnection None None (Some "node-1") None))
    as (_ & _ & Hmissing & _).
  destruct (onConnect_ignores_nodes initialState ghostWire)
    as (_ & _ & _ & Hghost).
  destruct (Hghost "ghost" "node-1") as (Hmade & _ & Happend);
    [reflexivity | reflexivity | discriminate | discriminate |].
  destruct (onConnect_ignores_nodes wiredState (wire "node-1" "node-2"))
    as (_ & _ & _ & Hwired).
  destruct (Hwired "node-1" "node-2") as (_ & Hsame & _);
    [reflexivity | reflexivity | discriminate | discriminate |].
  split_and!.
  - apply Hmissing. left. reflexivity.
  - exact Hmade.
  - apply Happend. intros (el & Hin & _). by apply elem_of_nil in Hin.
  - apply Hsame. exists (madeEdge "node-1" "node-2").
    split; [apply list_elem_of_here|]. repeat split; by left.
Defined.

(** *** Node ids *)

Lemma issued_next_id_free (st : State) : issued st → next_id_free st.
Proof.
  unfold issued, next_id_free. rewrite Forall_forall. cbn.
  intros Hissued Hin. destruct (Hissued _ Hin) as (k & Hlt & [= Heq]).
  apply pretty_N_inj in Heq. lia.
Qed.

Lemma issued_initial (ls : gmap string (text Workflow)) : issued (newSession ls).
Proof.
  unfold issued. cbn. repeat constructor.
  - exists 1%N. by split.
  - exists 2%N. by split.
Qed.

Lemma issued_weaken (l : list string) (c : N) :
  Forall (λ id, ∃ k : N, (k < c)%N ∧ id = "node-" +:+ pretty k) l →
  Forall (λ id, ∃ k : N, (k < c + 1)%N ∧ id = "node-" +:+ pretty k) l.
Proof.
  intros Hl. eapply Forall_impl; [exact Hl|].
  intros id (k & Hlt & ->). exists k. split; [lia | done].
Qed.

(** Within one session, as long as nothing is loaded, a dropped block gets
    an id that no node carries, and ids stay unique. *)
Lemma onDrop_fresh (proj : XYPosition → XYPosition) (event : DropEvent)
    (payload : DragPayload) (st : State) :
  dataTransfer event !! "application/reactflow" = Some (Json payload) →
  issued st → unique_node_ids st →
  ∃ st', onDrop proj event st = Returns st' ∧
         ids st' = ids st ++ ["node-" +:+ pretty (nodeIdCounter st)] ∧
         edges st' = edges st ∧
         issued st' ∧ unique_node_ids st'.
Proof.
  intros Hdata Hissued Huniq. unfold onDrop, getData. rewrite Hdata. cbn.
  eexists. split; [reflexivity|].
  unfold issued, unique_node_ids, ids in *. cbn. rewrite fmap_app. cbn.
  split; [done|]. split; [done|]. split.
  - apply Forall_app. split; [by apply issued_weaken|].
    apply Forall_singleton. exists (nodeIdCounter st). split; [lia | done].
  - apply NoDup_app. split; [done|]. split; [|apply NoDup_singleton].
    intros id Hin ->%list_elem_of_singleton.
    by apply (issued_next_id_free st).
Qed.

Lemma handleLoad_keeps_counter (st st' : State) :
  handleLoad st = Returns st' → nodeIdCounter st' = nodeIdCounter st.
Proof.
  unfold handleLoad.
  destruct (localStorage st !! "workflow") as [[|doc|]|]; cbn; by intros [= <-].
Qed.

(** C3, evaluated on the code. On a second visit the counter starts again at
    3 and the load leaves it there, although the loaded graph holds node-3:
    the next dropped block is given the id node-3 a second time. *)
Theorem drop_after_load_reuses_id :
  ids <$> secondVisit = Returns ["node-1"; "node-2"; "node-3"] ∧
  nodeIdCounter <$> secondVisit = Returns 3%N ∧
  ids <$> dropAfterLoad = Returns ["node-1"; "node-2"; "node-3"; "node-3"] ∧
  (λ st, bool_decide (unique_node_ids st)) <$> dropAfterLoad = Returns false.
Proof. by vm_compute. Qed.

(** *** Duplicating a node *)

Lemma getNode_present (st : State) (n : string) :
  n ∈ ids st →
  ∃ cur, getNode n st = Some cur ∧ cur ∈ nodes st ∧ node_id cur = n.
Proof.
  intros (node & -> & Hin)%list_elem_of_fmap. unfold getNode.
  destruct (last _) as [cur|] eqn:Hlast.
  - apply last_Some_elem_of, list_elem_of_filter in Hlast as [Hid Hcur].
    by exists cur.
  - apply last_None in Hlast.
    assert (node ∈ filter (λ m, node_id m = node_id node) (nodes st)) as Hf
      by by apply list_elem_of_filter.
    rewrite Hlast in Hf. by apply elem_of_nil in Hf.
Qed.

Lemma getNode_absent (st : State) (n : string) :
  n ∉ ids st → getNode n st = None.
Proof.
  intros Habsent. unfold getNode. rewrite filter_none; [done|].
  apply Forall_forall. intros node Hin Heq. apply Habsent.
  rewrite <- Heq. by apply list_elem_of_fmap_2.
Qed.

(** What [handleDuplicate] does, on a graph with unique node ids, for a
    node that is present: one node is
    appended, with the next id of the generator, the type, description,
    status and configuration of the original, its position moved by 50 on
    both axes and its label followed by " (Copy)"; no edge is made. The new
    id is fresh whenever the next id of the generator is not in use. *)
Lemma handleDuplicate_copy (st : State) (n : string) :
  unique_node_ids st →
  n ∈ ids st →
  ∃ cur new,
    getNode n st = Some cur ∧ cur ∈ nodes st ∧ node_id cur = n ∧
    nodes (handleDuplicate n st) = nodes st ++ [new] ∧
    edges (handleDuplicate n st) = edges st ∧
    node_id new = "node-" +:+ pretty (nodeIdCounter st) ∧
    (next_id_free st → node_id new ∉ ids st) ∧
    data_type (node_data new) = data_type (node_data cur) ∧
    description (node_data new) = description (node_data cur) ∧
    status (node_data new) = status (node_data cur) ∧
    config (node_data new) = config (node_data cur) ∧
    position new = mkXY (x (position cur) + 50) (y (position cur) + 50) ∧
    label (node_data new) = label (node_data cur) +:+ " (Copy)".
Proof.
  intros _ Hin.
  destruct (getNode_present st n Hin) as (cur & Hget & Hcur & Hid).
  exists cur. eexists. unfold handleDuplicate. rewrite Hget. cbn.
  repeat split; try done.
Qed.

Lemma handleDuplicate_absent (st : State) (n : string) :
  n ∉ ids st → handleDuplicate n st = st.
Proof.
  intros Habsent. unfold handleDuplicate. by rewrite getNode_absent.
Qed.

(** C6, evaluated on the code. After the load of the second visit, the
    duplicate of node-1 is given the id node-3, which the loaded graph
    already holds. *)
Theorem duplicate_after_load_reuses_id :
  ids <$> secondVisit = Returns ["node-1"; "node-2"; "node-3"] ∧
  ids <$> duplicateAfterLoad
    = Returns ["node-1"; "node-2"; "node-3"; "node-3"] ∧
  (λ st, bool_decide (unique_node_ids st)) <$> duplicateAfterLoad
    = Returns false.
Proof. by vm_compute. Qed.

(** *** The initial graph *)

(** C9 as stated fails: a new session does not start with zero nodes. *)
Lemma initialState_not_empty :
  ¬ (length (nodes initialState) = 0 ∧ length (edges initialState) = 0).
Proof. intros [Hnodes _]. discriminate Hnodes. Qed.

(** C9, amended. A new session starts, whatever the storage holds, with the
    two predefined nodes node-1 (Deploy) and node-2 (Constructor), no edge
    and no selection, and its id generator continues after them, at
    node-3. *)
Theorem newSession_graph (ls : gmap string (text Workflow)) :
  nodes (newSession ls) = initialNodes ∧
  ids (newSession ls) = ["node-1"; "node-2"] ∧
  data_type ∘ node_data <$> nodes (newSession ls) = ["Deploy"; "Constructor"] ∧
  edges (newSession ls) = [] ∧
  selectedNodes (newSession ls) = [] ∧
  fst (getNodeId (newSession ls)) = "node-3".
Proof. by repeat split. Qed.

(** *** Persistence *)

Lemma handleLoad_saved (st : State) (doc : Workflow) :
  localStorage st !! "workflow" = Some (Json doc) →
  handleLoad st =
    Returns (mkState (default [] (wf_nodes doc)) (default [] (wf_edges doc))
                     (selectedNodes st) (nodeIdCounter st) (localStorage st)).
Proof. unfold handleLoad. by intros ->. Qed.

(** C5. On a graph with unique node ids whose numbers are finite and not
    the negative zero (where what the library hands to the save and what
    JSON gives back are the graph itself): saving, clearing the canvas and
    loading gives back the nodes and the edges that were saved, in order
    and field by field for the fields of the persisted document (ids, node
    type, position and data, edge source and target); the canvas was empty
    in between, and node ids are unique again afterwards. *)
Theorem save_clear_load (now : string) (st : State) :
  unique_node_ids st → json_stable st →
  let cleared := handleClear true (handleSave now st) in
  nodes cleared = [] ∧ edges cleared = [] ∧
  ∃ st', handleLoad cleared = Returns st' ∧
         nodeFields <$> nodes st' = nodeFields <$> nodes st ∧
         edgeFields <$> edges st' = edgeFields <$> edges st ∧
         ids st' = ids st ∧ edge_id <$> edges st' = edge_id <$> edges st ∧
         length (nodes st') = length (nodes st) ∧
         length (edges st') = length (edges st) ∧
         unique_node_ids st'.
Proof.
  intros Huniq _. cbn. split; [done|]. split; [done|].
  eexists. split.
  - apply handleLoad_saved. cbn. apply lookup_insert_eq.
  - done.
Qed.

Lemma save_clear_load_witness :
  ∃ st', handleLoad (handleClear true
                       (handleSave "2025-01-01T00:00:00.000Z" wiredState))
         = Returns st' ∧
         ids st' = ["node-1"; "node-2"] ∧
         edge_id <$> edges st' = ["edge-node-1-node-2"].
Proof.
  destruct (save_clear_load "2025-01-01T00:00:00.000Z" wiredState)
    as (_ & _ & st' & Hload & _ & _ & Hids & Hedges & _).
  - compute_done.
  - split; compute_done.
  - exists st'. split; [exact Hload|]. split; [exact Hids | exact Hedges].
Defined.

(** The scenario of the specification: two nodes and one edge. *)
Example save_clear_load_scenario :
  length (nodes wiredState) = 2 ∧ length (edges wiredState) = 1 ∧
  (λ st, (ids st, edge_id <$> edges st)) <$>
    handleLoad (handleClear true (handleSave "2025-01-01T00:00:00.000Z" wiredState))
  = Returns (["node-1"; "node-2"], ["edge-node-1-node-2"]).
Proof. by vm_compute. Qed.

(** C8. Loading from an absent slot returns normally and changes nothing.
    Loading a document returns normally, with each array of the document
    that is present and an empty collection for each that is missing; the id
    counter, the selection and the storage are as before. *)
Theorem handleLoad_defensive (st : State) :
  (localStorage st !! "workflow" = None → handleLoad st = Returns st) ∧
  (∀ doc, localStorage st !! "workflow" = Some (Json doc) →
     ∃ st', handleLoad st = Returns st' ∧
       nodes st' = default [] (wf_nodes doc) ∧
       edges st' = default [] (wf_edges doc) ∧
       (wf_nodes doc = None → nodes st' = []) ∧
       (wf_edges doc = None → edges st' = []) ∧
       nodeIdCounter st' = nodeIdCounter st ∧
       selectedNodes st' = selectedNodes st ∧
       localStorage st' = localStorage st).
Proof.
  split.
  - unfold handleLoad. by intros ->.
  - intros doc Hdoc. eexists. split; [by apply handleLoad_saved|].
    cbn. repeat split; by intros ->.
Qed.

Lemma handleLoad_defensive_witness :
  let st := mkState initialNodes [] [] 3 {[ "workflow" := Json docWithoutNodes ]} in
  ∃ st', handleLoad st = Returns st' ∧ nodes st' = [] ∧
         edges st' = [madeEdge "node-1" "node-2"].
Proof.
  intros st.
  destruct (handleLoad_defensive st) as [_ Hdoc].
  destruct (Hdoc docWithoutNodes) as (st' & Hload & Hnodes & Hedges & _).
  - reflexivity.
  - exists st'. split; [exact Hload|]. split; [exact Hnodes | exact Hedges].
Defined.

(** A stored text that does not parse makes the handler throw. *)
Lemma handleLoad_garbled (st : State) :
  localStorage st !! "workflow" = Some Garbled → handleLoad st = Throws.
Proof. unfold handleLoad. by intros ->. Qed.

(** *** Dropping a palette block *)


(** C10. A drop whose transfer carries no payload for the format
    'application/reactflow', or carries the empty string, returns without
    creating a node: the whole state, node and edge collections and id
    counter included, is unchanged. *)
Theorem onDrop_without_payload :
  ∀ (proj : XYPosition → XYPosition) (event : DropEvent) (st : State),
    dataTransfer event !! "application/reactflow" = None ∨
    dataTransfer event !! "application/reactflow" = Some Empty →
    onDrop proj event st = Returns st.
Proof.
  intros proj event st Hdata. unfold onDrop, getData.
  destruct Hdata as [-> | ->]; reflexivity.
Qed.

Lemma onDrop_without_payload_witness :
  onDrop (λ p, p) (mkDrop ∅ 10 20) initialState = Returns initialState.
Proof.
  apply (onDrop_without_payload (λ p, p) (mkDrop ∅ 10 20) initialState).
  left. reflexivity.
Defined.

(** ** Further properties of the handlers *)

(** *** Editing a label *)



(** *** Dropping a dragged palette block *)

(** X2. What [onDragStart] puts into the transfer for a block is read back
    by [onDrop]: exactly one node is appended, with the next id of the
    generator, the label "New <block>", the block as its type, the
    description "<block> node", status idle, an empty configuration and
    the projected pointer position; edges, selection and storage are
    untouched and the id counter advances by one. *)
Theorem onDrop_of_onDragStart (proj : XYPosition → XYPosition)
    (nodeType : string) (cx cy : float) (st : State) :
  ∃ newNode,
    onDrop proj (mkDrop (onDragStart nodeType) cx cy) st
    = Returns (mkState (nodes st ++ [newNode]) (edges st) (selectedNodes st)
                       (nodeIdCounter st + 1) (localStorage st)) ∧
    node_id newNode = "node-" +:+ pretty (nodeIdCounter st) ∧
    node_type newNode = "customNode" ∧
    label (node_data newNode) = "New " +:+ nodeType ∧
    data_type (node_data newNode) = nodeType ∧
    description (node_data newNode) = nodeType +:+ " node" ∧
    status (node_data newNode) = "idle" ∧
    config (node_data newNode) = [] ∧
    position newNode = proj (mkXY cx cy).
Proof.
  eexists. unfold onDrop, getData, onDragStart. cbn [dataTransfer].
  rewrite lookup_singleton_eq. cbn. split; [reflexivity|]. done.
Qed.

(** *** Deleting *)

Lemma filter_swap {A : Type} (P Q : A → Prop) `{!∀ a, Decision (P a)}
    `{!∀ a, Decision (Q a)} (l : list A) :
  filter P (filter Q l) = filter Q (filter P l).
Proof.
  rewrite !list_filter_filter. apply list_filter_iff. intros a. tauto.
Qed.

Lemma filter_twice {A : Type} (P : A → Prop) `{!∀ a, Decision (P a)}
    (l : list A) :
  filter P (filter P l) = filter P l.
Proof. by apply list_filter_filter_l. Qed.

(** X3. Deleting the same node twice is the same as deleting it once, and
    two deletions give the same state in either order, whatever the answers
    to the two confirmations. *)
Theorem handleDelete_idempotent_commutes (c1 c2 : bool) (a b : string)
    (st : State) :
  handleDelete true a (handleDelete true a st) = handleDelete true a st ∧
  handleDelete c1 a (handleDelete c2 b st)
  = handleDelete c2 b (handleDelete c1 a st).
Proof.
  split.
  - unfold handleDelete, setEdges, setNodes. cbn. by rewrite !filter_twice.
  - destruct c1, c2; try reflexivity.
    unfold handleDelete, setEdges, setNodes. cbn.
    f_equal; apply filter_swap.
Qed.





(** X5. A selection that names no node of the graph (as it may after a
    clear or a load, which keep the selection) makes the Delete key remove
    nothing from a graph without dangling edges. *)
Theorem deleteKeyEffect_stale_selection (deleteKey : bool) (st : State) :
  (∀ id, id ∈ selectedNodes st → id ∉ ids st) → edges_closed st →
  nodes (deleteKeyEffect deleteKey st) = nodes st ∧
  edges (deleteKeyEffect deleteKey st) = edges st.
Proof.
  intros Hstale Hclosed. unfold deleteKeyEffect.
  destruct (deleteKey && _); [|done]. cbn.
  assert (∀ id, id ∈ ids st → id ∉ selectedNodes st) as Hkept.
  { intros id Hin Hsel. by apply (Hstale id). }
  split; apply filter_all, Forall_forall.
  - intros node Hin. apply Hkept. by apply list_elem_of_fmap_2.
  - unfold edges_closed in Hclosed. rewrite Forall_forall in Hclosed.
    intros edge Hin. destruct (Hclosed edge Hin). split; by apply Hkept.
Qed.

Lemma deleteKeyEffect_stale_selection_witness :
  let st := setSelectedNodes ["node-7"] wiredState in
  nodes (deleteKeyEffect true st) = nodes st ∧
  edges (deleteKeyEffect true st) = edges st.
Proof.
  intros st. apply (deleteKeyEffect_stale_selection true st).
  - intros id ->%list_elem_of_singleton. compute_done.
  - compute_done.
Defined.

(** *** Connecting *)

Lemma addEdge_idempotent (edgeParams : EdgeParams) (eds : list Edge) :
  addEdge edgeParams (addEdge edgeParams eds) = addEdge edgeParams eds.
Proof.
  unfold addEdge.
  destruct (ep_source edgeParams) as [s|], (ep_target edgeParams) as [t|];
    try done.
  destruct (negb _ || negb _); [done|]. cbn zeta.
  destruct (decide (connectionExists _ eds)) as [Hex | Hno].
  - by rewrite decide_True.
  - by rewrite decide_True by apply connectionExists_self.
Qed.

(** X6. [onConnect] is idempotent for every connection and every state:
    repeating a connection gesture never adds a second edge. *)
Theorem onConnect_idempotent (connection : Connection) (st : State) :
  onConnect connection (onConnect connection st) = onConnect connection st.
Proof.
  unfold onConnect, setEdges. cbn. by rewrite addEdge_idempotent.
Qed.

(** *** What a session without a load keeps *)

Lemma session_ok_initial (ls : gmap string (text Workflow)) :
  session_ok (newSession ls).
Proof.
  split_and!.
  - unfold unique_node_ids. cbn. compute_done.
  - apply issued_initial.
  - constructor.
  - split; constructor.
Qed.

Lemma keepWhere_ok (keep : string → Prop) `{!∀ i, Decision (keep i)}
    (st : State) :
  session_ok st → session_ok (keepWhere keep st).
Proof.
  intros (Huniq & Hissued & Hclosed & Hcan). split_and!.
  - unfold unique_node_ids, ids, keepWhere in *. cbn.
    eapply sublist_NoDup; [exact Huniq|]. apply fmap_sublist, sublist_filter.
  - unfold issued, ids, keepWhere in *. cbn. rewrite Forall_forall in *.
    intros id (node & -> & [_ Hin]%list_elem_of_filter)%list_elem_of_fmap.
    apply Hissued. by apply list_elem_of_fmap_2.
  - unfold edges_closed, ids, keepWhere in *. cbn. rewrite Forall_forall in *.
    intros edge [[Hs Ht] Hin]%list_elem_of_filter.
    destruct (Hclosed edge Hin) as
      [(ns & Hns & Hins)%list_elem_of_fmap (nt & Hnt & Hint)%list_elem_of_fmap].
    split; apply list_elem_of_fmap.
    + exists ns. split; [done|]. apply list_elem_of_filter. by rewrite <- Hns.
    + exists nt. split; [done|]. apply list_elem_of_filter. by rewrite <- Hnt.
  - unfold keepWhere. by apply edges_canonical_filter.
Qed.

(** Appending a node that carries the next id of the generator. *)
Lemma append_node_ok (newNode : Node) (st : State) :
  node_id newNode = "node-" +:+ pretty (nodeIdCounter st) →
  session_ok st →
  session_ok (mkState (nodes st ++ [newNode]) (edges st) (selectedNodes st)
                      (nodeIdCounter st + 1) (localStorage st)).
Proof.
  intros Hid (Huniq & Hissued & Hclosed & Hcan).
  pose proof (issued_next_id_free st Hissued) as Hfree.
  unfold session_ok, unique_node_ids, issued, edges_closed, edges_canonical,
    next_id_free, ids in *. cbn in *. rewrite fmap_app. cbn. rewrite Hid.
  split_and!.
  - apply NoDup_app. split; [done|]. split; [|apply NoDup_singleton].
    by intros id Hin ->%list_elem_of_singleton.
  - apply Forall_app. split; [by apply issued_weaken|].
    apply Forall_singleton. exists (nodeIdCounter st). split; [lia | done].
  - eapply Forall_impl; [exact Hclosed|]. cbn.
    intros edge [Hs Ht]. split; apply elem_of_app; by left.
  - by destruct Hcan.
  - by destruct Hcan.
Qed.

Lemma onDrop_ok (proj : XYPosition → XYPosition) (event : DropEvent)
    (st st' : State) :
  onDrop proj event st = Returns st' → session_ok st → session_ok st'.
Proof.
  unfold onDrop. destruct (getData event _) as [|payload|].
  - by intros [= <-].
  - unfold JSON_parse, getNodeId, setNodes.
    cbn [nodes edges selectedNodes nodeIdCounter localStorage].
    intros [= <-] Hok. by apply append_node_ok.
  - done.
Qed.

Lemma handleDuplicate_ok (n : string) (st : State) :
  session_ok st → session_ok (handleDuplicate n st).
Proof.
  intros Hok. unfold handleDuplicate. destruct (getNode n st); [|done].
  unfold getNodeId, setNodes.
  cbn [nodes edges selectedNodes nodeIdCounter localStorage].
  by apply append_node_ok.
Qed.

Lemma issued_nonempty (st : State) (id : string) :
  issued st → id ∈ ids st → id ≠ "".
Proof.
  unfold issued. rewrite Forall_forall. intros Hissued Hin.
  by destruct (Hissued id Hin) as (k & _ & ->).
Qed.

Lemma onConnect_ok (a b : string) (st : State) :
  a ∈ ids st → b ∈ ids st → session_ok st →
  session_ok (onConnect (wire a b) st).
Proof.
  intros Ha Hb (Huniq & Hissued & Hclosed & Hcan).
  assert (a ≠ "") as Ha' by by eapply issued_nonempty.
  assert (b ≠ "") as Hb' by by eapply issued_nonempty.
  split_and!; [done | done | | by apply onConnect_canonical].
  rewrite onConnect_wire by done. destruct (decide _); [done|].
  unfold edges_closed, ids in *. cbn. apply Forall_app. split; [done|].
  by apply Forall_singleton.
Qed.

Lemma handleEdit_ids (answer : option string) (n : string)
    (localData : NodeData) (st : State) :
  ids (fst (handleEdit answer n localData st)) = ids st ∧
  edges (fst (handleEdit answer n localData st)) = edges st ∧
  nodeIdCounter (fst (handleEdit answer n localData st)) = nodeIdCounter st.
Proof.
  unfold handleEdit. destruct answer as [newLabel|]; [|done].
  destruct (_ && _); [|done]. unfold ids. cbn.
  rewrite <- list_fmap_compose. split; [|done].
  apply list_fmap_ext. intros i node _. cbn.
  by destruct (decide (node_id node = n)).
Qed.

Lemma handleEdit_ok (answer : option string) (n : string)
    (localData : NodeData) (st : State) :
  session_ok st → session_ok (fst (handleEdit answer n localData st)).
Proof.
  destruct (handleEdit_ids answer n localData st) as (Hids & Hedges & Hc).
  unfold session_ok, unique_node_ids, issued, edges_closed, edges_canonical.
  by rewrite Hids, Hedges, Hc.
Qed.

Lemma step_ok (st st' : State) : step st st' → session_ok st → session_ok st'.
Proof.
  intros Hstep Hok. destruct Hstep.
  - by eapply onDrop_ok.
  - by apply onConnect_ok.
  - destruct confirm; [|done].
    exact (keepWhere_ok (λ i, i ≠ n) st Hok).
  - unfold deleteKeyEffect. destruct (_ && _); [|done].
    exact (keepWhere_ok (λ i, i ∉ selectedNodes st) st Hok).
  - by apply handleDuplicate_ok.
  - by apply handleEdit_ok.
  - destruct confirm; [|done]. split_and!; repeat constructor.
  - done.
  - done.
Qed.

Lemma reachable_ok (ls : gmap string (text Workflow)) (st : State) :
  reachable ls st → session_ok st.
Proof.
  unfold reachable. revert st. apply rtc_ind_r.
  - apply session_ok_initial.
  - intros st st' _ Hstep Hok. by eapply step_ok.
Qed.

(** X7. In a session in which nothing is loaded, whatever sequence of
    drops, connections, deletions, duplications, label edits, clears, saves
    and selection changes has run: node ids are unique, the next id of the
    generator is in use by no node, and every edge joins two nodes of the
    graph. *)
Theorem session_keeps_node_invariants (ls : gmap string (text Workflow))
    (st : State) :
  reachable ls st →
  unique_node_ids st ∧ next_id_free st ∧ edges_closed st.
Proof.
  intros (Huniq & Hissued & Hclosed & _)%reachable_ok.
  split_and!; [done | by apply issued_next_id_free | done].
Qed.

Lemma wiredState_reachable : reachable ∅ wiredState.
Proof.
  apply rtc_once, (step_connect "node-1" "node-2" initialState); compute_done.
Defined.

Lemma session_keeps_node_invariants_witness :
  unique_node_ids wiredState ∧ next_id_free wiredState ∧
  edges_closed wiredState.
Proof.
  exact (session_keeps_node_invariants ∅ wiredState wiredState_reachable).
Defined.

(** *** Edge ids *)

Lemma dashless_split (p1 p2 t1 t2 : string) :
  dashless p1 → dashless p2 →
  p1 +:+ "-" +:+ t1 = p2 +:+ "-" +:+ t2 → p1 = p2 ∧ t1 = t2.
Proof.
  revert p2. induction p1 as [|c1 p1 IH]; intros [|c2 p2]; cbn.
  - intros _ _ [= Heq]. cbn in Heq. by subst.
  - intros _ [Hc _] [= Heq _]. by subst.
  - intros [Hc _] _ [= Heq _]. by subst.
  - intros [_ H1] [_ H2] [= -> Heq].
    destruct (IH p2 H1 H2 Heq) as [-> ->]. done.
Qed.

Lemma pretty_N_go_dashless (n : N) (s : string) :
  dashless s → dashless (pretty_N_go n s).
Proof.
  revert s. induction (N.lt_wf_0 n) as [n _ IH]; intros s Hs.
  assert (n = 0 ∨ 0 < n)%N as [-> | Hpos] by lia.
  - by rewrite pretty_N_go_0.
  - rewrite pretty_N_go_step by done. apply IH.
    { by apply N.div_lt. }
    split; [|done]. unfold pretty_N_char. by repeat case_match.
Qed.

Lemma pretty_N_dashless (n : N) : dashless (pretty n).
Proof.
  unfold pretty, pretty_N. destruct (decide (n = 0)%N).
  - by split.
  - by apply pretty_N_go_dashless.
Qed.

(** The derived edge id tells the endpoints, when these are ids the
    generator makes. *)
Lemma edgeIdOf_issued_inj (k1 k2 k1' k2' : N) :
  edgeIdOf (Some ("node-" +:+ pretty k1)) (Some ("node-" +:+ pretty k2))
  = edgeIdOf (Some ("node-" +:+ pretty k1')) (Some ("node-" +:+ pretty k2')) →
  k1 = k1' ∧ k2 = k2'.
Proof.
  unfold edgeIdOf. cbn. intros [= Heq].
  apply dashless_split in Heq as [H1 [= H2]]; try apply pretty_N_dashless.
  split; by apply pretty_N_inj.
Qed.

(** X8. In a session in which nothing is loaded, edge ids are unique, every
    edge carries the id "edge-<source>-<target>", and no two edges join the
    same ordered pair of nodes. *)
Theorem session_keeps_edge_ids_unique (ls : gmap string (text Workflow))
    (st : State) :
  reachable ls st →
  NoDup (edge_id <$> edges st) ∧
  (∀ edge, edge ∈ edges st →
     edge_id edge = "edge-" +:+ source edge +:+ "-" +:+ target edge) ∧
  NoDup ((λ edge, (source edge, target edge)) <$> edges st).
Proof.
  intros (_ & Hissued & Hclosed & Hcan & Hpairs)%reachable_ok.
  unfold issued in Hissued. unfold edges_closed in Hclosed.
  rewrite Forall_forall in Hissued. rewrite Forall_forall in Hclosed.
  rewrite Forall_forall in Hcan.
  split_and!; [|by intros edge [? _]%Hcan | done].
  apply NoDup_fmap_2_strong; [|by eapply NoDup_fmap_1].
  intros e1 e2 H1 H2 Hid.
  destruct (Hcan e1 H1) as [Hid1 _], (Hcan e2 H2) as [Hid2 _].
  destruct (Hclosed e1 H1) as [(k1 & _ & Hs1)%Hissued (k2 & _ & Ht1)%Hissued].
  destruct (Hclosed e2 H2) as [(k3 & _ & Hs2)%Hissued (k4 & _ & Ht2)%Hissued].
  rewrite Hid1, Hid2, Hs1, Ht1, Hs2, Ht2 in Hid.
  apply edgeIdOf_issued_inj in Hid as [-> ->].
  assert (e2 ∈ filter (λ e, (source e, target e) = (source e1, target e1))
                      (edges st)) as Hin.
  { apply list_elem_of_filter. split; [|done]. by rewrite Hs1, Ht1, Hs2, Ht2. }
  rewrite (filter_key_unique (λ e, (source e, target e))) in Hin by done.
  by apply list_elem_of_singleton in Hin.
Qed.

Lemma session_keeps_edge_ids_unique_witness :
  NoDup (edge_id <$> edges wiredState) ∧
  (∀ edge, edge ∈ edges wiredState →
     edge_id edge = "edge-" +:+ source edge +:+ "-" +:+ target edge) ∧
  NoDup ((λ edge, (source edge, target edge)) <$> edges wiredState).
Proof.
  exact (session_keeps_edge_ids_unique ∅ wiredState wiredState_reachable).
Defined.

(** *** The id generator *)




(** *** Storage *)

Lemma step_storage (st st' : State) :
  step st st' →
  localStorage st' = localStorage st ∨ ∃ now, st' = handleSave now st.
Proof.
  intros Hstep. destruct Hstep.
  - left. unfold onDrop in H. destruct (getData event _); cbn in H;
      try discriminate; by injection H as <-.
  - by left.
  - left. by destruct confirm.
  - left. unfold deleteKeyEffect. by destruct (_ && _).
  - left. unfold handleDuplicate. by destruct (getNode n st).
  - left. unfold handleEdit. destruct answer; [|done]. by destruct (_ && _).
  - left. by destruct confirm.
  - right. by exists now.
  - by left.
Qed.

(** X10. The storage is written by [handleSave] alone: every other handler
    of a session, and [handleLoad] when it returns, leaves it as it was. *)
Theorem only_handleSave_writes_storage (st st' : State) :
  (step st st' →
   localStorage st' = localStorage st ∨ ∃ now, st' = handleSave now st) ∧
  (handleLoad st = Returns st' → localStorage st' = localStorage st).
Proof.
  split; [apply step_storage|].
  unfold handleLoad.
  destruct (localStorage st !! "workflow") as [[|doc|]|]; cbn; by intros [= <-].
Qed.

Lemma only_handleSave_writes_storage_witness :
  localStorage (handleDelete true "node-1" wiredState) = localStorage wiredState
  ∨ ∃ now, handleDelete true "node-1" wiredState = handleSave now wiredState.
Proof.
  apply (only_handleSave_writes_storage wiredState).
  apply step_delete.
Defined.

(** X11. A load replaces the graph by the one that was saved, whatever the
    canvas holds by then (the document is the snapshot taken by the save,
    not merged with the current graph): when the saved graph had unique
    node ids and numbers that are finite and not the negative zero, the
    load gives back its nodes and edges, in order and field by field for
    the fields of the persisted document; the id counter and the selection
    of the current session are kept. *)
Theorem handleLoad_restores_snapshot (now : string) (saved current : State) :
  unique_node_ids saved → json_stable saved →
  localStorage current = localStorage (handleSave now saved) →
  ∃ st', handleLoad current = Returns st' ∧
         nodeFields <$> nodes st' = nodeFields <$> nodes saved ∧
         edgeFields <$> edges st' = edgeFields <$> edges saved ∧
         unique_node_ids st' ∧
         nodeIdCounter st' = nodeIdCounter current ∧
         selectedNodes st' = selectedNodes current.
Proof.
  intros Huniq _ Hstorage. eexists. split.
  - apply handleLoad_saved. rewrite Hstorage. cbn. apply lookup_insert_eq.
  - done.
Qed.

Lemma handleLoad_restores_snapshot_witness :
  ids <$> firstVisit = Returns ["node-1"; "node-2"; "node-3"] ∧
  ids <$> savedThenDropped = Returns ["node-1"; "node-2"; "node-3"; "node-4"] ∧
  ∃ st', handleLoad (default initialState
                       (match savedThenDropped with
                        | Returns st => Some st | Throws => None end))
         = Returns st' ∧
         node_id <$> nodes st' = ["node-1"; "node-2"; "node-3"] ∧
         nodeIdCounter st' = 5%N.
Proof.
  split; [reflexivity|]. split; [reflexivity|].
  destruct (handleLoad_restores_snapshot "2025-01-01T00:00:00.000Z"
              (mkState (initialNodes ++ [mkNode "node-3" "customNode"
                           (mkData "New Swap" "Swap" "Swap node" "idle" [])
                           (mkXY 250 180) []]) [] [] 4 ∅)
              (default initialState
                 (match savedThenDropped with
                  | Returns st => Some st | Throws => None end)))
    as (st' & Hload & Hnodes & _ & _ & Hcounter & _).
  - compute_done.
  - split; compute_done.
  - reflexivity.
  - exists st'. split; [exact Hload|]. split.
    + apply (f_equal (fmap (λ fields, fields.1.1.1))) in Hnodes.
      rewrite <- !list_fmap_compose in Hnodes. exact Hnodes.
    + by rewrite Hcounter.
Defined.

(** X12. Loading twice is the same as loading once, for every content of
    the slot: absent, empty, a document, or a text that does not parse. *)
Theorem handleLoad_idempotent (st : State) :
  handleLoad st ≫= handleLoad = handleLoad st.
Proof.
  unfold handleLoad at 2 3.
  destruct (localStorage st !! "workflow") as [[|doc|]|] eqn:Hslot; cbn.
  - unfold handleLoad. by rewrite Hslot.
  - unfold handleLoad. cbn. by rewrite Hslot.
  - done.
  - unfold handleLoad. by rewrite Hslot.
Qed.



(** *** The palette *)

Lemma includes_empty (s : string) : includes s "" = true.
Proof. by destruct s. Qed.

Lemma catalog_consistent :
  Forall (λ entry, ∀ c : Category,
            matchesCategory c (fst entry) = true ↔
            c = all ∨ category (snd entry) = categoryKey c) nodeTypes.
Proof.
  assert (Forall (λ entry, Forall (λ c : Category,
            matchesCategory c (fst entry) = true ↔
            c = all ∨ category (snd entry) = categoryKey c)
            [all; deployment; token; defi; logic; storage; external])
          nodeTypes) as Hall by compute_done.
  eapply Forall_impl; [exact Hall|]. cbn beta. intros entry Hentry c.
  rewrite Forall_forall in Hentry. apply Hentry. destruct c; compute_done.
Qed.

(** X14. Whatever the search term and the runtime's [toLowerCase], the
    palette lists entries of [nodeTypes], in their order; each listed
    block matches the search, and under a category other than 'all' each
    listed block has that category in [nodeTypes] and is named in
    [nodeCategories] for it. *)
Theorem filteredNodes_sound (toLowerCase : string → string)
    (searchTerm : string) (c : Category) :
  filteredNodes toLowerCase searchTerm c `sublist_of` nodeTypes ∧
  ∀ entry, entry ∈ filteredNodes toLowerCase searchTerm c →
    includes (toLowerCase (fst entry)) (toLowerCase searchTerm) = true ∧
    (c ≠ all →
     category (snd entry) = categoryKey c ∧
     ∃ types, nodeCategories c = Some types ∧ fst entry ∈ types).
Proof.
  split; [apply sublist_filter|].
  intros entry [[Hsearch Hcat]%andb_prop_elim Hin]%list_elem_of_filter.
  apply Is_true_true in Hsearch, Hcat. split; [done|]. intros Hc.
  pose proof catalog_consistent as Hcons. rewrite Forall_forall in Hcons.
  split.
  - apply (Hcons entry Hin c) in Hcat as [? | ?]; done.
  - unfold matchesCategory in Hcat.
    rewrite bool_decide_false in Hcat by done. cbn in Hcat.
    destruct (nodeCategories c) as [types|]; [|done].
    exists types. split; [done|]. by apply bool_decide_eq_true in Hcat.
Qed.

(** X15. With an empty search term the palette lists, under a category,
    exactly the blocks [nodeCategories] names for it, in that order, and
    under 'all' every block of [nodeTypes]. *)
Theorem filteredNodes_empty_search (toLowerCase : string → string)
    (c : Category) :
  toLowerCase "" = "" →
  fst <$> filteredNodes toLowerCase "" c
  = default (fst <$> nodeTypes) (nodeCategories c).
Proof.
  intros Hlower. unfold filteredNodes.
  rewrite (list_filter_iff _ (λ entry, matchesCategory c (fst entry))).
  - by destruct c.
  - intros entry. unfold matchesSearch. by rewrite Hlower, includes_empty.
Qed.

Lemma filteredNodes_empty_search_witness :
  fst <$> filteredNodes toLowerCaseAscii "" storage
  = ["Mapping"; "Array"; "Struct"].
Proof.
  apply (filteredNodes_empty_search toLowerCaseAscii storage). reflexivity.
Defined.

Lemma onDrop_dragged (proj : XYPosition → XYPosition) (nodeType : string)
    (cx cy : float) (st : State) :
  onDrop proj (mkDrop (onDragStart nodeType) cx cy) st
  = Returns (mkState
      (nodes st ++
       [mkNode ("node-" +:+ pretty (nodeIdCounter st)) "customNode"
          (mkData ("New " +:+ nodeType) nodeType (nodeType +:+ " node")
                  "idle" [])
          (proj (mkXY cx cy)) []])
      (edges st) (selectedNodes st) (nodeIdCounter st + 1) (localStorage st)).
Proof.
  unfold onDrop, getData, onDragStart. cbn [dataTransfer].
  by rewrite lookup_singleton_eq.
Qed.

(** X16. Dragging any block the palette lists and dropping it on the canvas
    appends one node whose type is that block, an entry of [nodeTypes], so
    that [CustomNode] finds its icon and colour there. *)
Theorem palette_block_drops_catalog_node (toLowerCase : string → string)
    (searchTerm : string) (c : Category) (entry : string * BlockType)
    (proj : XYPosition → XYPosition) (cx cy : float) (st : State) :
  entry ∈ filteredNodes toLowerCase searchTerm c →
  ∃ st' newNode,
    onDrop proj (mkDrop (onDragStart (fst entry)) cx cy) st = Returns st' ∧
    nodes st' = nodes st ++ [newNode] ∧ edges st' = edges st ∧
    label (node_data newNode) = "New " +:+ fst entry ∧
    (data_type (node_data newNode), snd entry) ∈ nodeTypes.
Proof.
  intros [_ Hin]%list_elem_of_filter. do 2 eexists.
  split; [apply onDrop_dragged|]. cbn [nodes edges node_data label data_type].
  split_and!; try done.
  by destruct entry.
Qed.

Lemma palette_block_drops_catalog_node_witness :
  ∃ st' newNode,
    onDrop unitViewport (mkDrop (onDragStart "Swap") 250 180) initialState
    = Returns st' ∧
    nodes st' = nodes initialState ++ [newNode] ∧
    edges st' = edges initialState ∧
    label (node_data newNode) = "New Swap" ∧
    (data_type (node_data newNode),
     mkBlock "Activity" "from-purple-500 to-pink-600" "purple" "defi")
    ∈ nodeTypes.
Proof.
  apply (palette_block_drops_catalog_node toLowerCaseAscii "sw" defi
           ("Swap", mkBlock "Activity" "from-purple-500 to-pink-600"
                            "purple" "defi")
           unitViewport 250 180 initialState).
  assert (filteredNodes toLowerCaseAscii "sw" defi
          = [("Swap", mkBlock "Activity" "from-purple-500 to-pink-600"
                              "purple" "defi")]) as -> by reflexivity.
  apply list_elem_of_here.
Defined.

(** *** Loads within a session *)

Lemma session_ok_ext (st1 st2 : State) :
  nodes st2 = nodes st1 → edges st2 = edges st1 →
  (nodeIdCounter st1 ≤ nodeIdCounter st2)%N →
  session_ok st1 → session_ok st2.
Proof.
  intros Hn He Hc (Huniq & Hissued & Hclosed & Hcan & Hpairs).
  unfold session_ok, unique_node_ids, issued, edges_closed, edges_canonical,
    ids in *. rewrite Hn, He. split_and!; [done | | done | done | done].
  eapply Forall_impl; [exact Hissued|]. cbn beta.
  intros id (k & Hlt & ->). exists k. split; [lia | done].
Qed.

Lemma step_counter (st st' : State) :
  step st st' → (nodeIdCounter st ≤ nodeIdCounter st')%N.
Proof.
  intros Hstep. destruct Hstep.
  - unfold onDrop in H. destruct (getData event _); try discriminate;
      injection H as <-; cbn [nodeIdCounter setNodes getNodeId]; lia.
  - done.
  - by destruct confirm.
  - unfold deleteKeyEffect. by destruct (_ && _).
  - unfold handleDuplicate. destruct (getNode n st); [|done].
    cbn [nodeIdCounter setNodes getNodeId]. lia.
  - by destruct (handleEdit_ids answer n localData st) as (_ & _ & ->).
  - by destruct confirm.
  - done.
  - done.
Qed.

Lemma stored_ok_absent (st : State) :
  localStorage st !! "workflow" = None → stored_ok st.
Proof. intros Hnone doc Hdoc. by rewrite Hnone in Hdoc. Qed.

Lemma step_or_load_ok (st st' : State) :
  step_or_load st st' →
  session_ok st ∧ stored_ok st → session_ok st' ∧ stored_ok st'.
Proof.
  intros Hsl [Hok Hstored]. destruct Hsl as [st st' Hstep | st st' Hload].
  - split; [by eapply step_ok|].
    pose proof (step_counter st st' Hstep) as Hc.
    destruct (step_storage st st' Hstep) as [Hls | [now ->]].
    + intros doc Hdoc. rewrite Hls in Hdoc.
      by eapply (session_ok_ext (loaded doc st)); [| | |apply Hstored].
    + intros doc Hdoc. cbn in Hdoc. rewrite lookup_insert_eq in Hdoc.
      injection Hdoc as <-. by eapply (session_ok_ext st).
  - unfold handleLoad in Hload.
    destruct (localStorage st !! "workflow") as [[|doc|]|] eqn:Hslot;
      cbn in Hload; try discriminate; injection Hload as <-; try done.
    split; [by apply Hstored|].
    intros doc' Hdoc'. cbn in Hdoc'. rewrite Hslot in Hdoc'.
    injection Hdoc' as <-. by apply Hstored.
Qed.

(** X17. When the page is opened with no stored workflow (or with one
    whose ids the initial counter has passed), the session keeps unique
    node ids, a free next id and no dangling edge through every sequence of
    handlers, loads included: a load can only bring back what this session
    saved. *)
Theorem first_visit_loads_are_safe (ls : gmap string (text Workflow))
    (st : State) :
  stored_ok (newSession ls) →
  rtc step_or_load (newSession ls) st →
  unique_node_ids st ∧ next_id_free st ∧ edges_closed st.
Proof.
  intros Hstored Hrun.
  assert (session_ok st ∧ stored_ok st) as [(Huniq & Hissued & Hclosed & _) _].
  { revert st Hrun. apply rtc_ind_r.
    - split; [apply session_ok_initial | done].
    - intros st st' _ Hsl IH. by eapply step_or_load_ok. }
  split_and!; [done | by apply issued_next_id_free | done].
Qed.

Lemma saveClearLoadVisit_run :
  ∃ st, saveClearLoadVisit = Returns st ∧ rtc step_or_load initialState st.
Proof.
  eexists. split; [reflexivity|].
  eapply rtc_l.
  { apply by_handler.
    apply (step_drop unitViewport (mkDrop (onDragStart "Swap") 250 180)).
    apply onDrop_dragged. }
  eapply rtc_l.
  { apply by_handler, (step_save "2025-01-01T00:00:00.000Z"). }
  eapply rtc_l.
  { apply by_handler, (step_clear true). }
  apply rtc_once, by_load. reflexivity.
Defined.

Lemma first_visit_loads_are_safe_witness :
  ∃ st, saveClearLoadVisit = Returns st ∧
        unique_node_ids st ∧ next_id_free st ∧ edges_closed st.
Proof.
  destruct saveClearLoadVisit_run as (st & Hvisit & Hrun).
  exists st. split; [exact Hvisit|].
  apply (first_visit_loads_are_safe ∅ st); [|exact Hrun].
  apply stored_ok_absent. reflexivity.
Defined.

(** *** Dangling edges, on any graph *)

Lemma closed_grow (st st' : State) :
  edges st' = edges st → (∀ id, id ∈ ids st → id ∈ ids st') →
  edges_closed st → edges_closed st'.
Proof.
  intros He Hids Hclosed. unfold edges_closed in *. rewrite He.
  eapply Forall_impl; [exact Hclosed|]. cbn beta.
  intros edge [Hs Ht]. split; by apply Hids.
Qed.

Lemma closed_append (newNode : Node) (st : State) (c : N) :
  edges_closed st →
  edges_closed (mkState (nodes st ++ [newNode]) (edges st) (selectedNodes st)
                        c (localStorage st)).
Proof.
  apply closed_grow; [done|]. intros id Hin. unfold ids. cbn.
  rewrite fmap_app. apply elem_of_app. by left.
Qed.

Lemma keepWhere_closed (keep : string → Prop) `{!∀ i, Decision (keep i)}
    (st : State) :
  edges_closed st → edges_closed (keepWhere keep st).
Proof.
  unfold edges_closed, ids, keepWhere. cbn. rewrite !Forall_forall.
  intros Hclosed edge [[Hs Ht] Hin]%list_elem_of_filter.
  destruct (Hclosed edge Hin) as
    [(ns & Hns & Hins)%list_elem_of_fmap (nt & Hnt & Hint)%list_elem_of_fmap].
  split; apply list_elem_of_fmap.
  - exists ns. split; [done|]. apply list_elem_of_filter. by rewrite <- Hns.
  - exists nt. split; [done|]. apply list_elem_of_filter. by rewrite <- Hnt.
Qed.

(** X18. On every graph, also a loaded one, no handler of a session makes
    a dangling edge: if every edge joins two nodes of the graph before a
    drop, a connection between two nodes of the graph, a deletion, a
    duplication, a label edit, a clear, a save or a selection change, it
    does so afterwards. *)
Theorem handlers_keep_edges_closed (st st' : State) :
  step st st' → edges_closed st → edges_closed st'.
Proof.
  intros Hstep Hclosed. destruct Hstep.
  - unfold onDrop in H. destruct (getData event _); try discriminate;
      injection H as <-; [done|].
    unfold getNodeId, setNodes.
    cbn [nodes edges selectedNodes nodeIdCounter localStorage].
    by apply closed_append.
  - unfold onConnect, addEdge, wire, setEdges. cbn.
    destruct (negb _ || negb _); [done|].
    destruct (decide _); [done|].
    unfold edges_closed in *. cbn. apply Forall_app. split; [done|].
    by apply Forall_singleton.
  - destruct confirm; [|done]. exact (keepWhere_closed (λ i, i ≠ n) st Hclosed).
  - unfold deleteKeyEffect. destruct (_ && _); [|done].
    exact (keepWhere_closed (λ i, i ∉ selectedNodes st) st Hclosed).
  - unfold handleDuplicate. destruct (getNode n st); [|done].
    unfold getNodeId, setNodes.
    cbn [nodes edges selectedNodes nodeIdCounter localStorage].
    by apply closed_append.
  - destruct (handleEdit_ids answer n localData st) as (Hids & Hedges & _).
    unfold edges_closed. by rewrite Hids, Hedges.
  - destruct confirm; [|done]. constructor.
  - done.
  - done.
Qed.

Lemma handlers_keep_edges_closed_witness :
  edges_closed (handleDuplicate "node-2" wiredState).
Proof.
  apply (handlers_keep_edges_closed wiredState).
  - apply step_duplicate.
  - compute_done.
Defined.
